(** * asyncudp: the delivery queue adapter and the socket handle

    A shallow embedding of [asyncudp/__init__.py]: the protocol object that the
    event loop feeds through callbacks ([_SocketProtocol]), and the user-facing
    [Socket] that wraps it together with a transport.

    The event loop is cooperative and single-threaded: callbacks run only while
    the consumer is suspended in an [await].  A run of the consumer is therefore
    driven by the list of things the loop does while it waits: callbacks, and
    ticks of the clock.  One tick is a tenth of a time unit, so the
    [timeout=0.6] of [recvfrom] is six ticks. *)

From Equations Require Import Equations.
From Equations.Prop Require Import Logic.
From Stdlib Require Import List String ZArith Bool Arith Lia.
Import ListNotations.
Local Open Scope list_scope.

(** ** Python values *)

(** A [bytes] payload. *)
Definition bytes := list Byte.byte.

(** A socket address, the [(host, port)] tuple. *)
Definition address := (string * Z)%type.

(** The tuple [(data, addr)] that [datagram_received] enqueues. *)
Definition packet := (bytes * address)%type.

(** An exception object created outside this module (by the event loop, the
    operating system layer or the transport): its identity, and the answer of
    [bool(exc)].  Every built-in exception answers [True]; a subclass that
    defines [__bool__] or [__len__] may answer [False].  This module's own
    [ClosedError] is not among them: the event loop does not know the class
    and never hands an instance of it to [error_received]. *)
Record PyExc := { exc_id : nat; exc_bool : bool }.

(** What a call of this module can raise: its own [ClosedError] (line 6,
    constructed only at line 81), or an outside exception object passed on
    unchanged. *)
Inductive raised :=
| ClosedError
| Propagated (exc : PyExc).

(** How a call ends: it returns, it raises, or the observed events ran out
    while it was still suspended. *)
Inductive result (A : Type) :=
| Return (a : A)
| Raise (e : raised)
| Blocked.
Arguments Return {A} a.
Arguments Raise {A} e.
Arguments Blocked {A}.

(** ** asyncio.Queue, unbounded *)

Module Queue.

Definition t (A : Type) := list A.

Definition empty {A} : t A := [].

(** [put_nowait]: the item goes to the back. *)
Definition put_nowait {A} (item : A) (q : t A) : t A := q ++ [item].

(** [get] when an item is there: the front item, at once. *)
Definition get_nowait {A} (q : t A) : option (A * t A) :=
  match q with
  | [] => None
  | item :: q' => Some (item, q')
  end.

End Queue.

(** ** What the event loop does while the consumer waits *)

Inductive callback :=
| ConnectionMade
| ConnectionLost (exc : option PyExc)
| DatagramReceived (data : bytes) (addr : address)
| ErrorReceived (exc : PyExc).

Inductive event :=
| Tick
| Call (c : callback).

(** The poll interval, [timeout=0.6], in ticks. *)
Definition poll_ticks : nat := 6.

(** ** class _SocketProtocol *)

Module _SocketProtocol.

(** [self._packets] holds [Some (data, addr)] for a datagram and [None] for
    the closure sentinel; [self._error] is the [Optional[Exception]] slot. *)
Record t := mk {
  _packets : Queue.t (option packet);
  _error : option PyExc
}.

Definition __init__ : t :=
  {| _packets := Queue.empty; _error := None |}.

Definition connection_made {T : Type} (self : t) (transport : T) : t := self.

Definition connection_lost {T : Type} (self : t) (transport : T) : t :=
  {| _packets := Queue.put_nowait None (_packets self);
     _error := _error self |}.

Definition datagram_received (self : t) (data : bytes) (addr : address) : t :=
  {| _packets := Queue.put_nowait (Some (data, addr)) (_packets self);
     _error := _error self |}.

Definition error_received (self : t) (exc : PyExc) : t :=
  {| _packets := _packets self; _error := Some exc |}.

(** The loop invoking one callback on the protocol. *)
Definition deliver (c : callback) (self : t) : t :=
  match c with
  | ConnectionMade => connection_made self tt
  | ConnectionLost exc => connection_lost self exc
  | DatagramReceived data addr => datagram_received self data addr
  | ErrorReceived exc => error_received self exc
  end.

(** Callbacks running with no consumer involved. *)
Definition deliver_all (cs : list callback) (self : t) : t :=
  fold_left (fun p c => deliver c p) cs self.

(** How [asyncio.wait_for(self._packets.get(), timeout)] ends. *)
Inductive waited :=
| Got (item : option packet) (self : t) (now : nat) (tr : list event)
| TimeoutError (self : t) (now : nat) (tr : list event)
| Pending (self : t) (now : nat).

(** [asyncio.wait_for(self._packets.get(), timeout=...)], with [timeout] in
    ticks and [now] the clock.  An item already queued is returned at once.
    Otherwise callbacks run as the loop makes them, the first item put wakes
    the getter, and the [timeout]-th tick raises [asyncio.TimeoutError]. *)
Fixpoint wait_for_get (timeout : nat) (self : t) (now : nat) (tr : list event)
  : waited :=
  match Queue.get_nowait (_packets self) with
  | Some (item, q) => Got item {| _packets := q; _error := _error self |} now tr
  | None =>
      match timeout with
      | 0 => TimeoutError self now tr
      | S remaining =>
          match tr with
          | [] => Pending self now
          | Call c :: tr' => wait_for_get timeout (deliver c self) now tr'
          | Tick :: tr' =>
              match remaining with
              | 0 => TimeoutError self (S now) tr'
              | S _ => wait_for_get remaining self (S now) tr'
              end
          end
      end
  end.

(** A finished or still suspended call: what it gave, the object afterwards,
    the clock, and the events not yet consumed. *)
Record run (A S : Type) := mk_run {
  outcome : result A;
  final : S;
  clock : nat;
  rest : list event
}.
Arguments mk_run {A S}.
Arguments outcome {A S}.
Arguments final {A S}.
Arguments clock {A S}.
Arguments rest {A S}.

(** The [except asyncio.TimeoutError] clause (lines 34 to 37): [Some] is the
    exception raised and the object with its slot cleared, [None] is
    "keep waiting". *)
Definition on_timeout (self : t) : option (PyExc * t) :=
  match _error self with
  | Some exc =>
      if exc_bool exc
      then Some (exc, {| _packets := _packets self; _error := None |})
      else None
  | None => None
  end.

(** [async def recvfrom(self)]: the [while True] loop around [wait_for]. *)
Equations? recvfrom (self : t) (now : nat) (tr : list event)
  : run (option packet) t by wf (List.length tr) lt :=
  recvfrom self now tr with inspect (wait_for_get poll_ticks self now tr) := {
    | exist _ (Got item self' now' tr') _ =>
        mk_run (Return item) self' now' tr';
    | exist _ (Pending self' now') _ => mk_run Blocked self' now' [];
    | exist _ (TimeoutError self' now' tr') Hw with on_timeout self' := {
        | Some (to_raise, self'') =>
            mk_run (Raise (Propagated to_raise)) self'' now' tr';
        | None => recvfrom self' now' tr' } }.
Proof.
  (* a timeout of at least one tick consumes at least that tick *)
  clear recvfrom. unfold poll_ticks in Hw.
  revert Hw. generalize 5. revert self now.
  induction tr as [|ev tr IH]; intros self now timeout; simpl;
    destruct (Queue.get_nowait (_packets self)) as [[item q]|];
    try discriminate.
  destruct ev as [|c].
  - destruct timeout as [|timeout].
    + intros H; inversion H; subst; lia.
    + intros H. apply IH in H. lia.
  - intros H. apply IH in H. lia.
Qed.

End _SocketProtocol.

(** ** The transport handle

    The transport is an object of the event loop, opaque to this module.
    Towards this module it is what it is asked to do and how it reacts: whether
    the call raises, and which callbacks it makes on the protocol (which it
    shares with the socket) before the call comes back. *)

Inductive transport_call :=
| SendTo (data : bytes) (addr : option address)
| Close.

Record reaction := mk_reaction {
  raises : option PyExc;
  callbacks : list callback
}.

Record Transport := mk_transport {
  calls : list transport_call;
  behaviour : list transport_call -> transport_call -> reaction;
  extra_info : string -> option address
}.

(** ** class Socket *)

Module Socket.

Record t := mk {
  _transport : Transport;
  _protocol : _SocketProtocol.t
}.

Definition __init__ (transport : Transport) (protocol : _SocketProtocol.t) : t :=
  {| _transport := transport; _protocol := protocol |}.

(** One method call on [self._transport]: the transport records it and
    reacts. *)
Definition invoke (c : transport_call) (self : t) : result unit * t :=
  let tp := _transport self in
  let r := behaviour tp (calls tp) c in
  (match raises r with
   | Some exc => Raise (Propagated exc)
   | None => Return tt
   end,
   {| _transport := {| calls := calls tp ++ [c];
                       behaviour := behaviour tp;
                       extra_info := extra_info tp |};
      _protocol := _SocketProtocol.deliver_all (callbacks r) (_protocol self) |}).

(** [def close(self)]: [self._transport.close()]. *)
Definition close (self : t) : result unit * t :=
  invoke Close self.

(** [def sendto(self, data, addr=None)]: [self._transport.sendto(data, addr)];
    an omitted [addr] is [None]. *)
Definition sendto (self : t) (data : bytes) (addr : option address)
  : result unit * t :=
  invoke (SendTo data addr) self.

(** [async def recvfrom(self)]. *)
Definition recvfrom (self : t) (now : nat) (tr : list event)
  : _SocketProtocol.run packet t :=
  let r := _SocketProtocol.recvfrom (_protocol self) now tr in
  let self' := {| _transport := _transport self;
                  _protocol := _SocketProtocol.final r |} in
  let outcome' :=
    match _SocketProtocol.outcome r with
    | Return None => Raise ClosedError
    | Return (Some packet) => Return packet
    | Raise e => Raise e
    | Blocked => Blocked
    end in
  _SocketProtocol.mk_run outcome' self' (_SocketProtocol.clock r)
    (_SocketProtocol.rest r).

(** [def getsockname(self)]. *)
Definition getsockname (self : t) : option address :=
  extra_info (_transport self) "sockname".

(** [async def __aenter__(self)]: returns [self]. *)
Definition __aenter__ (self : t) : t := self.

(** [async def __aexit__(self, *exc_info)]: closes, whatever [exc_info] is,
    and returns [None]. *)
Definition __aexit__ (self : t) (exc_info : option raised) : result unit * t :=
  close self.

(** [async with sock: block], as the language defines it: [__aenter__], the
    block, then [__aexit__] with the exception the block raised (a
    cancellation is the exception [CancelledError] raised at the block's
    [await]) or with nothing.  [__aexit__] here returns [None], which is
    false, so the block's exception is raised again.  A block that is still
    suspended has not left the scope. *)
Definition async_with {A : Type} (mgr : t) (block : t -> result A * t)
  : result A * t :=
  let self := __aenter__ mgr in
  match block self with
  | (Return v, self1) =>
      match __aexit__ self1 None with
      | (Return _, self2) => (Return v, self2)
      | (Raise e, self2) => (Raise e, self2)
      | (Blocked, self2) => (Blocked, self2)
      end
  | (Raise e, self1) =>
      match __aexit__ self1 (Some e) with
      | (Return _, self2) => (Raise e, self2)
      | (Raise e', self2) => (Raise e', self2)
      | (Blocked, self2) => (Blocked, self2)
      end
  | (Blocked, self1) => (Blocked, self1)
  end.

(** [n] successive calls of [recvfrom] by one consumer, each with the clock
    reading at which it ended.  A call that is still suspended when the
    events run out is the last one. *)
Fixpoint recvfrom_n (n : nat) (self : t) (now : nat) (tr : list event)
  : list (result packet * nat) * t * list event :=
  match n with
  | 0 => ([], self, tr)
  | S n' =>
      let r := recvfrom self now tr in
      match _SocketProtocol.outcome r with
      | Blocked => ([(Blocked, _SocketProtocol.clock r)],
                    _SocketProtocol.final r, _SocketProtocol.rest r)
      | o =>
          let '(os, self', tr') :=
            recvfrom_n n' (_SocketProtocol.final r) (_SocketProtocol.clock r)
              (_SocketProtocol.rest r) in
          ((o, _SocketProtocol.clock r) :: os, self', tr')
      end
  end.

End Socket.

(** ** The event loop's side of the contract *)



(** ** Reading event lists *)

(** Clock ticks in a list of events. *)
Fixpoint ticks (tr : list event) : nat :=
  match tr with
  | [] => 0
  | Tick :: tr' => S (ticks tr')
  | Call _ :: tr' => ticks tr'
  end.

(** An event that leaves the queue and the error slot alone. *)
Definition silent (ev : event) : bool :=
  match ev with
  | Tick => true
  | Call ConnectionMade => true
  | Call _ => false
  end.

(** A stretch of time in which the loop has nothing to report. *)
Definition quiet (tr : list event) : bool := forallb silent tr.

(** An event other than an [error_received] callback. *)
Definition not_error (ev : event) : bool :=
  match ev with
  | Call (ErrorReceived _) => false
  | _ => true
  end.

(** The packets of a list of datagrams, as callbacks in that order. *)
Definition datagrams (l : list packet) : list callback :=
  map (fun p => DatagramReceived (fst p) (snd p)) l.

(** A callback other than [connection_lost]. *)
Definition not_lost (ev : event) : bool :=
  match ev with
  | Call (ConnectionLost _) => false
  | _ => true
  end.

(** The callbacks among the events, in order. *)
Fixpoint calls_of (tr : list event) : list callback :=
  match tr with
  | [] => []
  | Tick :: tr' => calls_of tr'
  | Call c :: tr' => c :: calls_of tr'
  end.

(** ** The receive loop as one recursion over the events

    [poll remaining self now tr] is the loop of [_SocketProtocol.recvfrom]
    observed inside a running [wait_for] that has [remaining] ticks left;
    [recvfrom_is_poll] below shows that [recvfrom] is [poll poll_ticks]. *)
Fixpoint poll (remaining : nat) (self : _SocketProtocol.t) (now : nat)
  (tr : list event) : _SocketProtocol.run (option packet) _SocketProtocol.t :=
  match Queue.get_nowait (_SocketProtocol._packets self) with
  | Some (item, q) =>
      _SocketProtocol.mk_run (Return item)
        (_SocketProtocol.mk q (_SocketProtocol._error self)) now tr
  | None =>
      match tr with
      | [] => _SocketProtocol.mk_run Blocked self now []
      | Call c :: tr' => poll remaining (_SocketProtocol.deliver c self) now tr'
      | Tick :: tr' =>
          match remaining with
          | S (S k) => poll (S k) self (S now) tr'
          | _ =>
              match _SocketProtocol.on_timeout self with
              | Some (to_raise, self') =>
                  _SocketProtocol.mk_run (Raise (Propagated to_raise)) self'
                    (S now) tr'
              | None => poll poll_ticks self (S now) tr'
              end
          end
      end
  end.

(** ** Objects used in the examples *)

Definition address_eqb (a b : address) : bool :=
  (String.eqb (fst a) (fst b) && Z.eqb (snd a) (snd b))%bool.

(** A reaction that neither raises nor calls back. *)
Definition accepts : reaction := {| raises := None; callbacks := [] |}.

(** A transport that accepts every call. *)
Definition plain_transport : Transport :=
  {| calls := []; behaviour := fun _ _ => accepts; extra_info := fun _ => None |}.

(** A transport connected to [peer] that refuses, with the exception [refusal],
    a [sendto] carrying any other explicit address, as asyncio's datagram
    transports do with [ValueError]. *)
Definition connected_transport (peer : address) (refusal : PyExc) : Transport :=
  {| calls := [];
     behaviour := fun _ c =>
       match c with
       | SendTo _ (Some a) =>
           if address_eqb a peer then accepts
           else {| raises := Some refusal; callbacks := [] |}
       | _ => accepts
       end;
     extra_info := fun _ => None |}.

(** A transport that reports a failed send to the protocol through
    [error_received] before [sendto] comes back, and does not raise. *)
Definition reporting_transport (failure : PyExc) : Transport :=
  {| calls := [];
     behaviour := fun _ c =>
       match c with
       | SendTo _ _ =>
           {| raises := None; callbacks := [ErrorReceived failure] |}
       | Close => accepts
       end;
     extra_info := fun _ => None |}.

Definition localhost (port : Z) : address := ("127.0.0.1"%string, port).

Definition ping : bytes := [Byte.x70; Byte.x69; Byte.x6e; Byte.x67].

(** An ordinary exception object, and one whose [bool()] is [False]. *)
Definition oserror : PyExc := {| exc_id := 1; exc_bool := true |}.
Definition oserror' : PyExc := {| exc_id := 2; exc_bool := true |}.
Definition falsy_error : PyExc := {| exc_id := 3; exc_bool := false |}.

(** A socket just created: a transport and a protocol fresh from
    [_SocketProtocol()]. *)
Definition fresh (transport : Transport) : Socket.t :=
  Socket.__init__ transport _SocketProtocol.__init__.

(** The socket with callbacks delivered to its protocol. *)
Definition after (cs : list callback) (self : Socket.t) : Socket.t :=
  {| Socket._transport := Socket._transport self;
     Socket._protocol :=
       _SocketProtocol.deliver_all cs (Socket._protocol self) |}.

(** What [Socket.recvfrom] makes of a dequeued element. *)
Definition handed_over (item : option packet) : result packet :=
  match item with
  | Some p => Return p
  | None => Raise ClosedError
  end.

(** Everything the callbacks [cs] put into the queue of a new adapter, in
    order: its queue when nothing has been dequeued. *)
Definition enqueued (cs : list callback) : Queue.t (option packet) :=
  _SocketProtocol._packets
    (_SocketProtocol.deliver_all cs _SocketProtocol.__init__).

(** The exception of a transport that refuses an address. *)
Definition value_error : PyExc := {| exc_id := 4; exc_bool := true |}.

(** ** async def create_socket *)




(** ** Callers *)

(** A caller making the transport-bound calls [cs] one after the other,
    [sendto] for a [SendTo] and [close] for a [Close], and going on whatever
    each of them gave. *)
Fixpoint perform (cs : list transport_call) (self : Socket.t)
  : list (result unit) * Socket.t :=
  match cs with
  | [] => ([], self)
  | c :: cs' =>
      let (o, self') :=
        match c with
        | SendTo data addr => Socket.sendto self data addr
        | Close => Socket.close self
        end in
      let (os, self'') := perform cs' self' in
      (o :: os, self'')
  end.

(** The queue elements behind the outcomes of successive [Socket.recvfrom]
    calls: a returned packet, the sentinel behind a [ClosedError], nothing
    for a reported error or a suspended call. *)
Definition handed (os : list (result packet * nat)) : list (option packet) :=
  flat_map (fun o => match fst o with
                     | Return p => [Some p]
                     | Raise ClosedError => [None]
                     | _ => []
                     end) os.

(** ** Reading callback lists *)





(** * Properties *)

(** ** The receive loop *)

(** One turn of the [while True] loop of [_SocketProtocol.recvfrom]. *)
Lemma recvfrom_unfold self now tr :
  _SocketProtocol.recvfrom self now tr =
  match _SocketProtocol.wait_for_get poll_ticks self now tr with
  | _SocketProtocol.Got item self' now' tr' =>
      _SocketProtocol.mk_run (Return item) self' now' tr'
  | _SocketProtocol.Pending self' now' =>
      _SocketProtocol.mk_run Blocked self' now' []
  | _SocketProtocol.TimeoutError self' now' tr' =>
      match _SocketProtocol.on_timeout self' with
      | Some (to_raise, self'') =>
          _SocketProtocol.mk_run (Raise (Propagated to_raise)) self'' now' tr'
      | None => _SocketProtocol.recvfrom self' now' tr'
      end
  end.
Proof.
  funelim (_SocketProtocol.recvfrom self now tr);
    match goal with
    | E : _SocketProtocol.wait_for_get _ _ _ _ = _ |- _ => rewrite E
    end;
    try match goal with
      | E : _SocketProtocol.on_timeout _ = _ |- _ => rewrite E
      end;
    reflexivity.
Qed.

(** A wait with [S k] ticks left, followed by the rest of the loop, is
    [poll (S k)]. *)
Lemma resume_is_poll n :
  forall tr, List.length tr < n -> forall k self now,
  match _SocketProtocol.wait_for_get (S k) self now tr with
  | _SocketProtocol.Got item self' now' tr' =>
      _SocketProtocol.mk_run (Return item) self' now' tr'
  | _SocketProtocol.Pending self' now' =>
      _SocketProtocol.mk_run Blocked self' now' []
  | _SocketProtocol.TimeoutError self' now' tr' =>
      match _SocketProtocol.on_timeout self' with
      | Some (to_raise, self'') =>
          _SocketProtocol.mk_run (Raise (Propagated to_raise)) self'' now' tr'
      | None => _SocketProtocol.recvfrom self' now' tr'
      end
  end = poll (S k) self now tr.
Proof.
  induction n as [|n IH]; intros tr Hlen k self now; [lia|].
  destruct tr as [|[|c] tr']; cbn [_SocketProtocol.wait_for_get poll];
    destruct (Queue.get_nowait (_SocketProtocol._packets self))
      as [[item q]|]; try reflexivity; simpl in Hlen.
  - destruct k as [|k].
    + destruct (_SocketProtocol.on_timeout self) as [[e s]|]; [reflexivity|].
      rewrite recvfrom_unfold. change poll_ticks with (S 5).
      apply IH. lia.
    + apply IH. lia.
  - apply IH. lia.
Qed.

(** [recvfrom] is the loop entered with a whole poll interval ahead. *)
Lemma recvfrom_is_poll self now tr :
  _SocketProtocol.recvfrom self now tr = poll poll_ticks self now tr.
Proof.
  rewrite recvfrom_unfold. change poll_ticks with (S 5).
  apply (resume_is_poll (S (List.length tr))). lia.
Qed.

(** ** Callbacks and the two fields *)

Lemma silent_call_deliver c self :
  silent (Call c) = true -> _SocketProtocol.deliver c self = self.
Proof. destruct c; simpl; intros H; try discriminate; reflexivity. Qed.

Lemma not_error_deliver c self :
  not_error (Call c) = true ->
  _SocketProtocol._error (_SocketProtocol.deliver c self)
  = _SocketProtocol._error self.
Proof. destruct c; simpl; intros H; try discriminate; reflexivity. Qed.

Lemma not_lost_deliver c self :
  not_lost (Call c) = true ->
  ~ In None (_SocketProtocol._packets self) ->
  ~ In None (_SocketProtocol._packets (_SocketProtocol.deliver c self)).
Proof.
  destruct c; simpl; intros H Hq; try discriminate; try assumption.
  unfold Queue.put_nowait. rewrite in_app_iff. simpl.
  intros [Hin|[Heq|[]]]; [auto | discriminate].
Qed.

Lemma on_timeout_same_slot self self' :
  _SocketProtocol._error self' = _SocketProtocol._error self ->
  _SocketProtocol.on_timeout self = None ->
  _SocketProtocol.on_timeout self' = None.
Proof.
  unfold _SocketProtocol.on_timeout. intros ->.
  destruct (_SocketProtocol._error self) as [e|]; [|reflexivity].
  destruct (exc_bool e); [discriminate | reflexivity].
Qed.

Lemma on_timeout_truthy self e :
  _SocketProtocol._error self = Some e -> exc_bool e = true ->
  _SocketProtocol.on_timeout self
  = Some (e, _SocketProtocol.mk (_SocketProtocol._packets self) None).
Proof. unfold _SocketProtocol.on_timeout. intros -> ->. reflexivity. Qed.

Lemma on_timeout_falsy self e :
  _SocketProtocol._error self = Some e -> exc_bool e = false ->
  _SocketProtocol.on_timeout self = None.
Proof. unfold _SocketProtocol.on_timeout. intros -> ->. reflexivity. Qed.

Lemma deliver_all_app cs1 cs2 self :
  _SocketProtocol.deliver_all (cs1 ++ cs2) self
  = _SocketProtocol.deliver_all cs2 (_SocketProtocol.deliver_all cs1 self).
Proof. unfold _SocketProtocol.deliver_all. apply fold_left_app. Qed.

(** Datagram callbacks append their packets, in order, and leave the error
    slot alone. *)
Lemma deliver_all_datagrams l self :
  _SocketProtocol.deliver_all (datagrams l) self
  = _SocketProtocol.mk (_SocketProtocol._packets self ++ map Some l)
      (_SocketProtocol._error self).
Proof.
  revert self. induction l as [|[data addr] l IH]; intros self; simpl.
  - rewrite app_nil_r. destruct self; reflexivity.
  - unfold _SocketProtocol.deliver_all in *. simpl. rewrite IH. simpl.
    unfold Queue.put_nowait. rewrite <- app_assoc. reflexivity.
Qed.

(** ** The loop, event by event *)

Ltac poll_empty H := cbn [poll]; rewrite H; cbn [Queue.get_nowait].

Lemma poll_ready remaining self now tr item q :
  _SocketProtocol._packets self = item :: q ->
  poll remaining self now tr
  = _SocketProtocol.mk_run (Return item)
      (_SocketProtocol.mk q (_SocketProtocol._error self)) now tr.
Proof. intros H. destruct tr; cbn [poll]; rewrite H; reflexivity. Qed.

(** With nothing queued, nothing deliverable in the slot and a loop that has
    nothing to report, the call stays suspended for as long as one looks. *)
Lemma poll_quiet_blocked tr :
  forall remaining self now,
  _SocketProtocol._packets self = [] ->
  _SocketProtocol.on_timeout self = None ->
  quiet tr = true ->
  poll remaining self now tr
  = _SocketProtocol.mk_run Blocked self (now + ticks tr) [].
Proof.
  induction tr as [|[|c] tr IH]; intros remaining self now Hq Ht Hquiet;
    poll_empty Hq.
  - rewrite Nat.add_0_r. reflexivity.
  - simpl in Hquiet. rewrite Ht.
    destruct remaining as [|[|k]]; rewrite IH by assumption;
      simpl; f_equal; lia.
  - simpl in Hquiet. apply andb_prop in Hquiet as [Hc Hquiet].
    rewrite (silent_call_deliver c self Hc). simpl. apply IH; assumption.
Qed.

(** While no [error_received] callback runs, a slot that holds nothing
    deliverable keeps its content, and no call raises an outside exception. *)
Lemma poll_keeps_undeliverable tr :
  forall remaining self now,
  _SocketProtocol.on_timeout self = None ->
  forallb not_error tr = true ->
  (forall e, _SocketProtocol.outcome (poll remaining self now tr)
             <> Raise (Propagated e))
  /\ _SocketProtocol._error (_SocketProtocol.final (poll remaining self now tr))
     = _SocketProtocol._error self.
Proof.
  induction tr as [|[|c] tr IH]; intros remaining self now Ht Hne;
    cbn [poll];
    destruct (Queue.get_nowait (_SocketProtocol._packets self))
      as [[item q]|]; simpl; try (split; [discriminate | reflexivity]).
  - simpl in Hne. rewrite Ht.
    destruct remaining as [|[|k]]; apply IH; assumption.
  - simpl in Hne. apply andb_prop in Hne as [Hc Hne].
    pose proof (not_error_deliver c self Hc) as Hd.
    destruct (IH remaining (_SocketProtocol.deliver c self) now
                (on_timeout_same_slot self _ Hd Ht) Hne) as [H1 H2].
    split; [exact H1 | rewrite H2; exact Hd].
Qed.

(** While [connection_lost] does not run, a queue without a sentinel never
    yields one. *)
Lemma poll_no_sentinel tr :
  forall remaining self now,
  ~ In None (_SocketProtocol._packets self) ->
  forallb not_lost tr = true ->
  _SocketProtocol.outcome (poll remaining self now tr) <> Return None.
Proof.
  induction tr as [|[|c] tr IH]; intros remaining self now Hq Hnl;
    cbn [poll];
    destruct (_SocketProtocol._packets self) as [|item q] eqn:E;
    cbn [Queue.get_nowait]; simpl;
    try (intros Heq; injection Heq as ->; apply Hq; left; reflexivity);
    try discriminate.
  - simpl in Hnl.
    destruct remaining as [|[|k]];
      try (apply IH; [rewrite E|]; assumption);
      destruct (_SocketProtocol.on_timeout self) as [[e s]|];
      try discriminate; apply IH; try assumption; rewrite E; assumption.
  - simpl in Hnl. apply andb_prop in Hnl as [Hc Hnl].
    apply IH; [|assumption]. apply not_lost_deliver; [assumption|].
    rewrite E. assumption.
Qed.

(** A quiet stretch moves a suspended call along inside its poll intervals. *)
Lemma poll_quiet_prefix pre :
  forall remaining self now,
  _SocketProtocol._packets self = [] ->
  _SocketProtocol.on_timeout self = None ->
  quiet pre = true ->
  1 <= remaining <= poll_ticks ->
  exists r', 1 <= r' <= poll_ticks /\
    forall tr, poll remaining self now (pre ++ tr)
               = poll r' self (now + ticks pre) tr.
Proof.
  induction pre as [|[|c] pre IH]; intros remaining self now Hq Ht Hquiet Hr.
  - exists remaining. split; [assumption|]. intros tr.
    simpl. rewrite Nat.add_0_r. reflexivity.
  - simpl in Hquiet.
    destruct remaining as [|[|k]]; [lia| |].
    + destruct (IH poll_ticks self (S now) Hq Ht Hquiet) as [r' [Hr' Heq]];
        [unfold poll_ticks; lia|].
      exists r'. split; [assumption|]. intros tr.
      simpl app. poll_empty Hq. rewrite Ht, Heq. simpl. f_equal. lia.
    + destruct (IH (S k) self (S now) Hq Ht Hquiet) as [r' [Hr' Heq]]; [lia|].
      exists r'. split; [assumption|]. intros tr.
      simpl app. poll_empty Hq. rewrite Heq. simpl. f_equal. lia.
  - simpl in Hquiet. apply andb_prop in Hquiet as [Hc Hquiet].
    destruct (IH remaining self now Hq Ht Hquiet Hr) as [r' [Hr' Heq]].
    exists r'. split; [assumption|]. intros tr.
    simpl app. poll_empty Hq. rewrite (silent_call_deliver c self Hc).
    apply Heq.
Qed.

(** A deliverable error in the slot is raised by the tick that ends the
    running wait, if the loop has nothing to report until then. *)
Lemma poll_raises_at_timeout pre :
  forall remaining self now e tr,
  _SocketProtocol._packets self = [] ->
  _SocketProtocol._error self = Some e -> exc_bool e = true ->
  quiet pre = true ->
  remaining = S (ticks pre) ->
  poll remaining self now (pre ++ Tick :: tr)
  = _SocketProtocol.mk_run (Raise (Propagated e))
      (_SocketProtocol.mk [] None) (now + remaining) tr.
Proof.
  induction pre as [|[|c] pre IH];
    intros remaining self now e tr Hq He Hb Hquiet ->;
    cbn [app ticks]; poll_empty Hq.
  - rewrite (on_timeout_truthy self e He Hb), Hq.
    f_equal. lia.
  - simpl in Hquiet.
    rewrite (IH (S (ticks pre)) self (S now) e tr) by auto.
    f_equal. lia.
  - simpl in Hquiet. apply andb_prop in Hquiet as [Hc Hquiet].
    rewrite (silent_call_deliver c self Hc).
    apply IH; auto.
Qed.

(** The same when the quiet stretch is longer than the wait. *)
Lemma poll_raises_within post :
  forall remaining self now e tr,
  _SocketProtocol._packets self = [] ->
  _SocketProtocol._error self = Some e -> exc_bool e = true ->
  quiet post = true ->
  1 <= remaining <= ticks post ->
  _SocketProtocol.outcome (poll remaining self now (post ++ tr))
  = Raise (Propagated e)
  /\ _SocketProtocol.clock (poll remaining self now (post ++ tr))
     = now + remaining.
Proof.
  induction post as [|[|c] post IH]; intros remaining self now e tr Hq He Hb Hquiet Hr;
    simpl in Hr; [lia| |]; simpl app; poll_empty Hq.
  - simpl in Hquiet.
    destruct remaining as [|[|k]]; [lia| |].
    + rewrite (on_timeout_truthy self e He Hb). simpl. split; [reflexivity|lia].
    + destruct (IH (S k) self (S now) e tr Hq He Hb Hquiet) as [H1 H2]; [lia|].
      rewrite H1, H2. split; [reflexivity|lia].
  - simpl in Hquiet. apply andb_prop in Hquiet as [Hc Hquiet].
    rewrite (silent_call_deliver c self Hc). apply IH; auto.
Qed.

(** ** The socket's receive *)

Lemma socket_recvfrom_ready tp item q err now tr :
  Socket.recvfrom (Socket.mk tp (_SocketProtocol.mk (item :: q) err)) now tr
  = _SocketProtocol.mk_run (handed_over item)
      (Socket.mk tp (_SocketProtocol.mk q err)) now tr.
Proof.
  unfold Socket.recvfrom. rewrite recvfrom_is_poll.
  cbn [Socket._protocol Socket._transport].
  rewrite (poll_ready _ _ _ _ item q) by reflexivity.
  destruct item; reflexivity.
Qed.

Lemma socket_recvfrom_propagated self now tr x :
  _SocketProtocol.outcome (Socket.recvfrom self now tr) = Raise (Propagated x)
  <-> _SocketProtocol.outcome
        (_SocketProtocol.recvfrom (Socket._protocol self) now tr)
      = Raise (Propagated x).
Proof.
  unfold Socket.recvfrom. cbn [_SocketProtocol.outcome].
  destruct (_SocketProtocol.outcome
              (_SocketProtocol.recvfrom (Socket._protocol self) now tr))
    as [[p|]|e|]; split; intros H; try discriminate;
    injection H as ->; reflexivity.
Qed.

(** The protocol's loop raises only what was stored in the slot, and only
    if it tests true; [ClosedError] is not its to raise. *)
Lemma poll_raises_stored tr :
  forall remaining self now e,
  _SocketProtocol.outcome (poll remaining self now tr) = Raise e ->
  exists x, e = Propagated x /\ exc_bool x = true.
Proof.
  induction tr as [|[|c] tr IH]; intros remaining self now e;
    cbn [poll];
    destruct (Queue.get_nowait (_SocketProtocol._packets self))
      as [[item q]|]; simpl; try discriminate.
  - unfold _SocketProtocol.on_timeout.
    destruct remaining as [|[|k]]; try apply IH;
      (destruct (_SocketProtocol._error self) as [x|]; [|apply IH];
       destruct (exc_bool x) eqn:Hb; [|apply IH];
       simpl; intros H; injection H as <-; exists x; split;
       [reflexivity | assumption]).
  - apply IH.
Qed.

(** Draining a queue: as many calls as there are elements hand them over in
    queue order, consume no event and no time, and leave the queue empty. *)
Lemma recvfrom_n_drains q :
  forall tp err now tr,
  Socket.recvfrom_n (List.length q)
    (Socket.mk tp (_SocketProtocol.mk q err)) now tr
  = (map (fun item => (handed_over item, now)) q,
     Socket.mk tp (_SocketProtocol.mk [] err), tr).
Proof.
  induction q as [|item q IH]; intros tp err now tr; [reflexivity|].
  cbn [List.length Socket.recvfrom_n]. rewrite socket_recvfrom_ready.
  cbn [_SocketProtocol.outcome _SocketProtocol.final _SocketProtocol.clock
       _SocketProtocol.rest].
  rewrite IH. destruct item; reflexivity.
Qed.

(** C1. Datagrams delivered by [datagram_received] before any receive come
    out of as many successive [Socket.recvfrom] calls in the order of the
    callbacks, each payload with the address of its own callback; the calls
    return at once and leave the socket as it was before the datagrams. *)
Theorem recvfrom_returns_datagrams_in_order
  (l : list packet) (self : Socket.t) (now : nat) (tr : list event) :
  _SocketProtocol._packets (Socket._protocol self) = [] ->
  Socket.recvfrom_n (List.length l) (after (datagrams l) self) now tr
  = (map (fun p => (Return p, now)) l, self, tr).
Proof.
  intros Hq. destruct self as [tp [q err]]. simpl in Hq. subst q.
  unfold after. cbn [Socket._transport Socket._protocol].
  rewrite deliver_all_datagrams. cbn [_SocketProtocol._packets
    _SocketProtocol._error app].
  pose proof (recvfrom_n_drains (map Some l) tp err now tr) as H.
  rewrite length_map, map_map in H. exact H.
Qed.

Lemma recvfrom_returns_datagrams_in_order_witness :
  Socket.recvfrom_n 2
    (after [DatagramReceived ping (localhost 9998);
            DatagramReceived [] (localhost 9997)] (fresh plain_transport))
    0 [Tick]
  = ([(Return (ping, localhost 9998), 0); (Return ([], localhost 9997), 0)],
     fresh plain_transport, [Tick]).
Proof.
  exact (recvfrom_returns_datagrams_in_order
           [(ping, localhost 9998); ([], localhost 9997)]
           (fresh plain_transport) 0 [Tick] eq_refl).
Defined.

(** [Socket.recvfrom] raises [ClosedError] exactly for a dequeued sentinel. *)
Lemma socket_recvfrom_closed_iff self now tr :
  _SocketProtocol.outcome (Socket.recvfrom self now tr) = Raise ClosedError
  <-> _SocketProtocol.outcome
        (_SocketProtocol.recvfrom (Socket._protocol self) now tr)
      = Return None.
Proof.
  unfold Socket.recvfrom. cbn [_SocketProtocol.outcome].
  destruct (_SocketProtocol.outcome
              (_SocketProtocol.recvfrom (Socket._protocol self) now tr))
    as [[p|]|e|] eqn:E; split; intros H; try discriminate;
    try reflexivity.
  rewrite recvfrom_is_poll in E. apply poll_raises_stored in E.
  destruct E as [x [-> _]]. discriminate.
Qed.

Lemma socket_recvfrom_no_closed_error self now tr :
  ~ In None (_SocketProtocol._packets (Socket._protocol self)) ->
  forallb not_lost tr = true ->
  _SocketProtocol.outcome (Socket.recvfrom self now tr) <> Raise ClosedError.
Proof.
  intros Hq Hnl H. apply socket_recvfrom_closed_iff in H.
  rewrite recvfrom_is_poll in H.
  revert H. apply poll_no_sentinel; assumption.
Qed.

(** C2. [Socket.recvfrom] raises [ClosedError] exactly when the element the
    protocol's [recvfrom] dequeued is the sentinel [None]; a dequeued
    datagram is returned.  A sentinel at the front of the queue is dequeued
    and raises, a datagram at the front is returned, and while
    [connection_lost] does not run a queue that holds no sentinel never
    leads to [ClosedError]. *)
Theorem closed_error_iff_sentinel_dequeued
  (self : Socket.t) (now : nat) (tr : list event) :
  (_SocketProtocol.outcome (Socket.recvfrom self now tr) = Raise ClosedError
   <-> _SocketProtocol.outcome
         (_SocketProtocol.recvfrom (Socket._protocol self) now tr)
       = Return None)
  /\ (forall p,
        _SocketProtocol.outcome
          (_SocketProtocol.recvfrom (Socket._protocol self) now tr)
        = Return (Some p) ->
        _SocketProtocol.outcome (Socket.recvfrom self now tr) = Return p)
  /\ (forall q,
        _SocketProtocol._packets (Socket._protocol self) = None :: q ->
        _SocketProtocol.outcome (Socket.recvfrom self now tr)
        = Raise ClosedError)
  /\ (forall p q,
        _SocketProtocol._packets (Socket._protocol self) = Some p :: q ->
        _SocketProtocol.outcome (Socket.recvfrom self now tr) = Return p)
  /\ (~ In None (_SocketProtocol._packets (Socket._protocol self)) ->
      forallb not_lost tr = true ->
      _SocketProtocol.outcome (Socket.recvfrom self now tr)
      <> Raise ClosedError).
Proof.
  split; [apply socket_recvfrom_closed_iff|]. split; [|split; [|split]].
  - intros p H. unfold Socket.recvfrom. cbn [_SocketProtocol.outcome].
    rewrite H. reflexivity.
  - intros q H. destruct self as [tp [q0 err]]. simpl in H. subst q0.
    rewrite socket_recvfrom_ready. reflexivity.
  - intros p q H. destruct self as [tp [q0 err]]. simpl in H. subst q0.
    rewrite socket_recvfrom_ready. reflexivity.
  - apply socket_recvfrom_no_closed_error.
Qed.

(** ** Errors reported through [error_received] *)

Lemma quiet_repeat_tick n : quiet (repeat Tick n) = true.
Proof. induction n as [|n IH]; [reflexivity | exact IH]. Qed.

(** A socket with an empty queue and nothing deliverable in the slot stays
    suspended while the loop has nothing to report. *)
Lemma socket_recvfrom_quiet self now tr :
  _SocketProtocol._packets (Socket._protocol self) = [] ->
  _SocketProtocol.on_timeout (Socket._protocol self) = None ->
  quiet tr = true ->
  Socket.recvfrom self now tr
  = _SocketProtocol.mk_run Blocked self (now + ticks tr) [].
Proof.
  intros Hq Ht Hquiet. unfold Socket.recvfrom.
  rewrite recvfrom_is_poll, (poll_quiet_blocked tr) by assumption.
  destruct self; reflexivity.
Qed.

(** C3, as stated, fails twice over.  An error object whose truth value is
    false was reported, nothing is queued, and two whole poll intervals later
    the call is still suspended with the error still in the slot.  And an
    ordinary error was reported, nothing is queued, and a datagram that
    arrives within the poll interval is returned in its place, the error
    staying in the slot. *)
Lemma reported_error_not_raised_by_next_recvfrom :
  Socket.recvfrom (after [ErrorReceived falsy_error] (fresh plain_transport))
    0 (repeat Tick 12)
  = _SocketProtocol.mk_run Blocked
      (after [ErrorReceived falsy_error] (fresh plain_transport))
      (2 * poll_ticks) []
  /\ Socket.recvfrom (after [ErrorReceived oserror] (fresh plain_transport))
       0 [Tick; Tick; Call (DatagramReceived ping (localhost 9998))]
     = _SocketProtocol.mk_run (Return (ping, localhost 9998))
         (after [ErrorReceived oserror] (fresh plain_transport)) 2 [].
Proof. split; reflexivity. Qed.

(** C3, amended.  An error whose truth value is true, reported by
    [error_received] while nothing is queued, is raised by the next
    [Socket.recvfrom] as that same object when the poll interval ends, if the
    loop reports nothing in between; the slot is cleared with it, and no later
    call raises a reported error until [error_received] runs again. *)
Theorem reported_error_raised_once
  (self : Socket.t) (e : PyExc) (pre tr : list event) (now : nat) :
  _SocketProtocol._packets (Socket._protocol self) = [] ->
  exc_bool e = true ->
  quiet pre = true ->
  S (ticks pre) = poll_ticks ->
  Socket.recvfrom (after [ErrorReceived e] self) now (pre ++ Tick :: tr)
  = _SocketProtocol.mk_run (Raise (Propagated e))
      (Socket.mk (Socket._transport self) (_SocketProtocol.mk [] None))
      (now + poll_ticks) tr
  /\ forall now' tr' x,
       forallb not_error tr' = true ->
       _SocketProtocol.outcome
         (Socket.recvfrom
            (Socket.mk (Socket._transport self) (_SocketProtocol.mk [] None))
            now' tr')
       <> Raise (Propagated x).
Proof.
  intros Hq Hb Hquiet Hticks. split.
  - unfold Socket.recvfrom, after.
    cbn [Socket._protocol Socket._transport _SocketProtocol.deliver_all
         fold_left _SocketProtocol.deliver].
    rewrite recvfrom_is_poll.
    rewrite (poll_raises_at_timeout pre poll_ticks _ now e tr);
      auto.
  - intros now' tr' x Hne H.
    apply socket_recvfrom_propagated in H.
    cbn [Socket._protocol] in H. rewrite recvfrom_is_poll in H.
    revert H. apply poll_keeps_undeliverable; [reflexivity | assumption].
Qed.

Lemma reported_error_raised_once_witness :
  Socket.recvfrom (after [ErrorReceived oserror] (fresh plain_transport))
    0 (repeat Tick 5 ++ Tick :: [Call (DatagramReceived ping (localhost 9998))])
  = _SocketProtocol.mk_run (Raise (Propagated oserror))
      (fresh plain_transport) 6
      [Call (DatagramReceived ping (localhost 9998))]
  /\ forall now' tr' x,
       forallb not_error tr' = true ->
       _SocketProtocol.outcome
         (Socket.recvfrom (fresh plain_transport) now' tr')
       <> Raise (Propagated x).
Proof.
  exact (reported_error_raised_once (fresh plain_transport) oserror
           (repeat Tick 5) [Call (DatagramReceived ping (localhost 9998))] 0
           eq_refl eq_refl eq_refl eq_refl).
Defined.

(** ** After the closure sentinel *)

(** C4, as stated, fails: the call that dequeues the sentinel raises
    [ClosedError] and leaves the queue empty, and the next call, however long
    one watches it, is suspended and never raises [ClosedError]. *)
Lemma drained_closed_socket_suspends :
  Socket.recvfrom (after [ConnectionLost None] (fresh plain_transport)) 0 []
  = _SocketProtocol.mk_run (Raise ClosedError) (fresh plain_transport) 0 []
  /\ ~ (exists n,
          _SocketProtocol.outcome
            (Socket.recvfrom (fresh plain_transport) 0 (repeat Tick n))
          <> Blocked).
Proof.
  split; [reflexivity|]. intros [n H]. apply H.
  rewrite socket_recvfrom_quiet;
    [reflexivity | reflexivity | reflexivity | apply quiet_repeat_tick].
Qed.

(** C4, amended.  After closure is reported, draining the queue hands over
    the datagrams queued before it and then raises [ClosedError] once, by the
    call that dequeues the sentinel.  From then on no call raises
    [ClosedError] unless [connection_lost] runs again, and with nothing
    deliverable in the error slot a call stays suspended for as long as the
    loop has nothing to report. *)
Theorem closed_signal_raised_once
  (l : list packet) (exc : option PyExc) (self : Socket.t) (now : nat)
  (tr : list event) :
  _SocketProtocol._packets (Socket._protocol self) = [] ->
  Socket.recvfrom_n (S (List.length l))
    (after (datagrams l ++ [ConnectionLost exc]) self) now tr
  = (map (fun p => (Return p, now)) l ++ [(Raise ClosedError, now)], self, tr)
  /\ (forall now' tr',
        forallb not_lost tr' = true ->
        _SocketProtocol.outcome (Socket.recvfrom self now' tr')
        <> Raise ClosedError)
  /\ (_SocketProtocol.on_timeout (Socket._protocol self) = None ->
      forall now' tr',
        quiet tr' = true ->
        Socket.recvfrom self now' tr'
        = _SocketProtocol.mk_run Blocked self (now' + ticks tr') []).
Proof.
  intros Hq. split; [|split].
  - destruct self as [tp [q err]]. simpl in Hq. subst q.
    unfold after. cbn [Socket._transport Socket._protocol].
    rewrite deliver_all_app, deliver_all_datagrams.
    cbn [_SocketProtocol.deliver_all fold_left _SocketProtocol.deliver].
    unfold _SocketProtocol.connection_lost, Queue.put_nowait.
    cbn [_SocketProtocol._packets _SocketProtocol._error app].
    pose proof (recvfrom_n_drains (map Some l ++ [None]) tp err now tr) as H.
    rewrite length_app, length_map, Nat.add_comm in H. simpl plus in H.
    rewrite H, map_app, map_map. reflexivity.
  - intros now' tr' Hnl H.
    revert H. apply socket_recvfrom_no_closed_error; [|assumption].
    rewrite Hq. intros [].
  - intros Ht now' tr' Hquiet. apply socket_recvfrom_quiet; assumption.
Qed.

Lemma closed_signal_raised_once_witness :
  Socket.recvfrom_n 2
    (after (datagrams [(ping, localhost 9998)] ++ [ConnectionLost None])
       (fresh plain_transport)) 0 (repeat Tick 7)
  = ([(Return (ping, localhost 9998), 0); (Raise ClosedError, 0)],
     fresh plain_transport, repeat Tick 7)
  /\ (forall now' tr',
        forallb not_lost tr' = true ->
        _SocketProtocol.outcome
          (Socket.recvfrom (fresh plain_transport) now' tr')
        <> Raise ClosedError)
  /\ (_SocketProtocol.on_timeout (Socket._protocol (fresh plain_transport))
      = None ->
      forall now' tr',
        quiet tr' = true ->
        Socket.recvfrom (fresh plain_transport) now' tr'
        = _SocketProtocol.mk_run Blocked (fresh plain_transport)
            (now' + ticks tr') []).
Proof.
  exact (closed_signal_raised_once [(ping, localhost 9998)] None
           (fresh plain_transport) 0 (repeat Tick 7) eq_refl).
Defined.

(** ** How long a reported error waits *)

(** C5, as stated, fails.  The consumer is suspended in [recvfrom] when the
    error is reported at clock 1.  Datagrams keep arriving less than a poll
    interval apart, so every wait ends with a datagram, never with a timeout:
    at clock 11, ten ticks after the report, three calls have returned
    datagrams, none has raised, and the error is still in the slot.  And an
    error object whose truth value is false, reported at clock 1 to a
    suspended consumer, is not raised by clock 14 although nothing else
    happens. *)
Lemma error_outwaited_by_datagrams :
  Socket.recvfrom_n 3 (fresh plain_transport) 0
    ([Tick; Call (ErrorReceived oserror); Tick; Tick;
      Call (DatagramReceived ping (localhost 9998))]
     ++ repeat Tick 4 ++ [Call (DatagramReceived ping (localhost 9998))]
     ++ repeat Tick 4 ++ [Call (DatagramReceived ping (localhost 9998))])
  = ([(Return (ping, localhost 9998), 3);
      (Return (ping, localhost 9998), 7);
      (Return (ping, localhost 9998), 11)],
     after [ErrorReceived oserror] (fresh plain_transport), [])
  /\ Socket.recvfrom (fresh plain_transport) 0
       (Tick :: Call (ErrorReceived falsy_error) :: repeat Tick 13)
     = _SocketProtocol.mk_run Blocked
         (after [ErrorReceived falsy_error] (fresh plain_transport)) 14 [].
Proof. split; reflexivity. Qed.

(** The protocol's side of C5: a call suspended with nothing deliverable in
    the slot, for however long, raises an error reported meanwhile at the
    timeout of the wait then running, if the loop reports nothing else before
    that timeout. *)
Lemma poll_raises_reported pre post :
  forall self now e tr,
  _SocketProtocol._packets self = [] ->
  _SocketProtocol.on_timeout self = None ->
  exc_bool e = true ->
  quiet pre = true -> quiet post = true ->
  poll_ticks <= ticks post ->
  exists delay, 1 <= delay <= poll_ticks /\
    _SocketProtocol.outcome
      (poll poll_ticks self now (pre ++ Call (ErrorReceived e) :: post ++ tr))
    = Raise (Propagated e)
    /\ _SocketProtocol.clock
         (poll poll_ticks self now
            (pre ++ Call (ErrorReceived e) :: post ++ tr))
       = now + ticks pre + delay.
Proof.
  intros self now e tr Hq Ht Hb Hpre Hpost Hlen.
  destruct (poll_quiet_prefix pre poll_ticks self now Hq Ht Hpre)
    as [r' [Hr' Heq]]; [unfold poll_ticks; lia|].
  exists r'. split; [assumption|]. rewrite Heq.
  poll_empty Hq. cbn [_SocketProtocol.deliver].
  apply poll_raises_within; auto. lia.
Qed.

(** C5, amended.  An error whose truth value is true, reported while the
    consumer is suspended in [recvfrom] with nothing queued and nothing
    deliverable in the slot, is raised to that consumer at most one poll
    interval after the report, provided the loop enqueues nothing and reports
    no other error for one poll interval after it. *)
Theorem reported_error_raised_within_poll_interval
  (self : Socket.t) (e : PyExc) (pre post tr : list event) (now : nat) :
  _SocketProtocol._packets (Socket._protocol self) = [] ->
  _SocketProtocol.on_timeout (Socket._protocol self) = None ->
  exc_bool e = true ->
  quiet pre = true ->
  quiet post = true ->
  poll_ticks <= ticks post ->
  _SocketProtocol.outcome
    (Socket.recvfrom self now (pre ++ Call (ErrorReceived e) :: post ++ tr))
  = Raise (Propagated e)
  /\ now + ticks pre
     < _SocketProtocol.clock
         (Socket.recvfrom self now
            (pre ++ Call (ErrorReceived e) :: post ++ tr))
     <= now + ticks pre + poll_ticks.
Proof.
  intros Hq Ht Hb Hpre Hpost Hlen.
  destruct (poll_raises_reported pre post (Socket._protocol self) now e tr
              Hq Ht Hb Hpre Hpost Hlen) as [delay [Hd [Ho Hc]]].
  unfold Socket.recvfrom.
  cbn [_SocketProtocol.outcome _SocketProtocol.clock].
  rewrite recvfrom_is_poll, Ho, Hc. split; [reflexivity | lia].
Qed.

Lemma reported_error_raised_within_poll_interval_witness :
  _SocketProtocol.outcome
    (Socket.recvfrom (fresh plain_transport) 0
       (repeat Tick 8 ++ Call (ErrorReceived oserror)
          :: repeat Tick 6 ++ [Call (DatagramReceived ping (localhost 9998))]))
  = Raise (Propagated oserror)
  /\ 0 + ticks (repeat Tick 8)
     < _SocketProtocol.clock
         (Socket.recvfrom (fresh plain_transport) 0
            (repeat Tick 8 ++ Call (ErrorReceived oserror)
               :: repeat Tick 6
                  ++ [Call (DatagramReceived ping (localhost 9998))]))
     <= 0 + ticks (repeat Tick 8) + poll_ticks.
Proof.
  apply (reported_error_raised_within_poll_interval (fresh plain_transport)
           oserror (repeat Tick 8) (repeat Tick 6)
           [Call (DatagramReceived ping (localhost 9998))] 0);
    reflexivity.
Defined.

(** ** The error slot *)

(** C6, as stated, fails in its first rule: a second error overwrites the
    slot although the first has not been consumed. *)
Lemma unconsumed_error_is_overwritten :
  _SocketProtocol._error
    (_SocketProtocol.error_received _SocketProtocol.__init__ oserror)
  = Some oserror
  /\ _SocketProtocol._error
       (_SocketProtocol.error_received
          (_SocketProtocol.error_received _SocketProtocol.__init__ oserror)
          oserror')
     = Some oserror'
  /\ oserror' <> oserror.
Proof. repeat split; try reflexivity. discriminate. Qed.

(** C6, amended.  The slot holds at most one error, and [error_received]
    replaces its content whatever it holds, consumed or not: of any number of
    errors reported with no [recvfrom] timeout in between, only the last is
    left, and the queue is not touched. *)
Theorem error_received_last_write_wins
  (self : _SocketProtocol.t) (earlier : list PyExc) (e : PyExc) :
  _SocketProtocol.error_received self e
  = _SocketProtocol.mk (_SocketProtocol._packets self) (Some e)
  /\ _SocketProtocol.deliver_all (map ErrorReceived (earlier ++ [e])) self
     = _SocketProtocol.mk (_SocketProtocol._packets self) (Some e).
Proof.
  split; [reflexivity|].
  revert self. induction earlier as [|e1 earlier IH]; intros self.
  - reflexivity.
  - change (_SocketProtocol.deliver_all
              (map ErrorReceived ((e1 :: earlier) ++ [e])) self)
      with (_SocketProtocol.deliver_all (map ErrorReceived (earlier ++ [e]))
              (_SocketProtocol.error_received self e1)).
    rewrite IH. reflexivity.
Qed.

(** ** What is ever enqueued *)

Lemma deliver_all_cons c cs self :
  _SocketProtocol.deliver_all (c :: cs) self
  = _SocketProtocol.deliver_all cs (_SocketProtocol.deliver c self).
Proof. reflexivity. Qed.


(** ** Sending and closing *)

(** C8, as stated, fails: the call raises in the caller when the transport's
    [sendto] raises, here for an explicit address that is not the peer the
    transport is connected to. *)
Lemma sendto_raises_synchronously :
  fst (Socket.sendto
         (fresh (connected_transport (localhost 9999) value_error))
         ping (Some (localhost 9998)))
  = Raise (Propagated value_error).
Proof. reflexivity. Qed.

(** Errors reported one after the other leave the last one in the slot. *)
Lemma deliver_all_error_reports earlier :
  forall e self,
  _SocketProtocol.deliver_all (map ErrorReceived (earlier ++ [e])) self
  = _SocketProtocol.mk (_SocketProtocol._packets self) (Some e).
Proof.
  induction earlier as [|e1 earlier IH]; intros e self; [reflexivity|].
  change (_SocketProtocol.deliver_all
            (map ErrorReceived ((e1 :: earlier) ++ [e])) self)
    with (_SocketProtocol.deliver_all (map ErrorReceived (earlier ++ [e]))
            (_SocketProtocol.error_received self e1)).
  rewrite IH. reflexivity.
Qed.

(** C8, amended.  [Socket.sendto] makes exactly one call of the transport's
    [sendto], with the very payload and address it was given ([None] when the
    address is omitted: the choice of destination is the transport's), and
    nothing else.  It never suspends.  It raises in the caller exactly when
    the transport's call raises, and then that exception.  What the transport
    reports through [error_received] during the call goes to the protocol's
    slot, where the last report wins; if that last error tests true, nothing
    is queued and the loop reports nothing during the next poll interval, the
    next [recvfrom] raises it when that interval ends. *)
Theorem sendto_is_one_transport_call
  (self : Socket.t) (data : bytes) (addr : option address) :
  calls (Socket._transport (snd (Socket.sendto self data addr)))
  = calls (Socket._transport self) ++ [SendTo data addr]
  /\ fst (Socket.sendto self data addr)
     = match raises (behaviour (Socket._transport self)
                       (calls (Socket._transport self)) (SendTo data addr))
       with
       | Some exc => Raise (Propagated exc)
       | None => Return tt
       end
  /\ fst (Socket.sendto self data addr) <> Blocked
  /\ Socket._protocol (snd (Socket.sendto self data addr))
     = _SocketProtocol.deliver_all
         (callbacks (behaviour (Socket._transport self)
                       (calls (Socket._transport self)) (SendTo data addr)))
         (Socket._protocol self)
  /\ (forall earlier e pre tr now,
        callbacks (behaviour (Socket._transport self)
                     (calls (Socket._transport self)) (SendTo data addr))
        = map ErrorReceived (earlier ++ [e]) ->
        exc_bool e = true ->
        _SocketProtocol._packets (Socket._protocol self) = [] ->
        quiet pre = true ->
        S (ticks pre) = poll_ticks ->
        Socket.recvfrom (snd (Socket.sendto self data addr)) now
          (pre ++ Tick :: tr)
        = _SocketProtocol.mk_run (Raise (Propagated e))
            (Socket.mk
               (Socket._transport (snd (Socket.sendto self data addr)))
               (_SocketProtocol.mk [] None))
            (now + poll_ticks) tr).
Proof.
  unfold Socket.sendto, Socket.invoke. cbn [fst snd Socket._transport calls
    Socket._protocol].
  split; [reflexivity|]. split; [reflexivity|].
  split; [destruct (raises _); discriminate|].
  split; [reflexivity|].
  intros earlier e pre tr now Hcb Hb Hq Hquiet Hticks.
  rewrite Hcb, deliver_all_error_reports, Hq.
  unfold Socket.recvfrom. cbn [Socket._protocol Socket._transport].
  rewrite recvfrom_is_poll.
  rewrite (poll_raises_at_timeout pre poll_ticks _ now e tr); auto.
Qed.

(** A send failure that the transport reports through [error_received]:
    [sendto] returns, and the receive that follows raises the failure at the
    end of its poll interval. *)
Example send_failure_surfaces_in_recvfrom :
  fst (Socket.sendto (fresh (reporting_transport oserror)) ping None)
  = Return tt
  /\ _SocketProtocol.outcome
       (Socket.recvfrom
          (snd (Socket.sendto (fresh (reporting_transport oserror)) ping None))
          0 (repeat Tick 6))
     = Raise (Propagated oserror).
Proof. split; reflexivity. Qed.

(** C9. Whatever the way out of [async with sock: ...], by return, by
    exception or by cancellation, [__aexit__] is [close], and the scope exit
    makes exactly one [close] call on the transport after what the block did;
    a block still suspended has not left the scope.  [close] itself is that
    one transport call and nothing more. *)
Theorem scope_exit_closes_once
  (A : Type) (mgr : Socket.t) (block : Socket.t -> result A * Socket.t)
  (exc_info : option raised) :
  Socket.__aexit__ mgr exc_info = Socket.close mgr
  /\ Socket.close mgr = Socket.invoke Close mgr
  /\ calls (Socket._transport (snd (Socket.close mgr)))
     = calls (Socket._transport mgr) ++ [Close]
  /\ match fst (block mgr) with
     | Blocked => Socket.async_with mgr block = block mgr
     | _ =>
         calls (Socket._transport (snd (Socket.async_with mgr block)))
         = calls (Socket._transport (snd (block mgr))) ++ [Close]
     end.
Proof.
  split; [reflexivity|]. split; [reflexivity|]. split; [reflexivity|].
  unfold Socket.async_with, Socket.__aenter__, Socket.__aexit__, Socket.close,
    Socket.invoke.
  destruct (block mgr) as [[v|e|] self1]; cbn [fst snd];
    try reflexivity;
    destruct (raises _); reflexivity.
Qed.

(** ** An error object that tests false *)

(** C10. The slot counts as occupied by the truth value of what it holds.
    For an error object whose [bool()] is false, stored by [error_received],
    the timeout branch neither raises nor clears; while no other error is
    reported every [recvfrom] ends with the object still in the slot and
    raises no reported error; and no [recvfrom], from any state over any
    events, ever raises that object. *)
Theorem falsy_error_never_delivered (self : _SocketProtocol.t) (e : PyExc) :
  exc_bool e = false ->
  _SocketProtocol.on_timeout (_SocketProtocol.error_received self e) = None
  /\ (forall now tr,
        forallb not_error tr = true ->
        (forall x,
            _SocketProtocol.outcome
              (_SocketProtocol.recvfrom
                 (_SocketProtocol.error_received self e) now tr)
            <> Raise (Propagated x))
        /\ _SocketProtocol._error
             (_SocketProtocol.final
                (_SocketProtocol.recvfrom
                   (_SocketProtocol.error_received self e) now tr))
           = Some e)
  /\ (forall any now tr,
        _SocketProtocol.outcome (_SocketProtocol.recvfrom any now tr)
        <> Raise (Propagated e)).
Proof.
  intros Hb.
  assert (Ht : _SocketProtocol.on_timeout
                 (_SocketProtocol.error_received self e) = None).
  { apply (on_timeout_falsy _ e); [reflexivity | exact Hb]. }
  split; [exact Ht|]. split.
  - intros now tr Hne. rewrite recvfrom_is_poll.
    apply poll_keeps_undeliverable; assumption.
  - intros any now tr H. rewrite recvfrom_is_poll in H.
    apply poll_raises_stored in H. destruct H as [x [Heq Hx]].
    injection Heq as <-. rewrite Hb in Hx. discriminate.
Qed.

Lemma falsy_error_never_delivered_witness :
  _SocketProtocol.on_timeout
    (_SocketProtocol.error_received _SocketProtocol.__init__ falsy_error)
  = None
  /\ (forall now tr,
        forallb not_error tr = true ->
        (forall x,
            _SocketProtocol.outcome
              (_SocketProtocol.recvfrom
                 (_SocketProtocol.error_received _SocketProtocol.__init__
                    falsy_error) now tr)
            <> Raise (Propagated x))
        /\ _SocketProtocol._error
             (_SocketProtocol.final
                (_SocketProtocol.recvfrom
                   (_SocketProtocol.error_received _SocketProtocol.__init__
                      falsy_error) now tr))
           = Some falsy_error)
  /\ (forall any now tr,
        _SocketProtocol.outcome (_SocketProtocol.recvfrom any now tr)
        <> Raise (Propagated falsy_error)).
Proof.
  exact (falsy_error_never_delivered _SocketProtocol.__init__ falsy_error
           eq_refl).
Defined.

(** ** The consumer only dequeues *)

Lemma poll_only_dequeues tr :
  forall remaining self now,
  exists consumed,
    tr = consumed ++ _SocketProtocol.rest (poll remaining self now tr)
    /\ _SocketProtocol._packets
         (_SocketProtocol.deliver_all (calls_of consumed) self)
       = match _SocketProtocol.outcome (poll remaining self now tr) with
         | Return item =>
             item :: _SocketProtocol._packets
                       (_SocketProtocol.final (poll remaining self now tr))
         | _ =>
             _SocketProtocol._packets
               (_SocketProtocol.final (poll remaining self now tr))
         end.
Proof.
  induction tr as [|[|c] tr IH]; intros remaining self now; cbn [poll];
    destruct (_SocketProtocol._packets self) as [|item q] eqn:Hq;
    cbn [Queue.get_nowait];
    try (exists []; split; [reflexivity | first [exact Hq | reflexivity]]).
  - assert (Hstep : forall r,
      exists consumed,
        Tick :: tr
        = consumed ++ _SocketProtocol.rest (poll r self (S now) tr)
        /\ _SocketProtocol._packets
             (_SocketProtocol.deliver_all (calls_of consumed) self)
           = match _SocketProtocol.outcome (poll r self (S now) tr) with
             | Return item =>
                 item :: _SocketProtocol._packets
                           (_SocketProtocol.final (poll r self (S now) tr))
             | _ =>
                 _SocketProtocol._packets
                   (_SocketProtocol.final (poll r self (S now) tr))
             end).
    { intros r. destruct (IH r self (S now)) as [consumed [H1 H2]].
      exists (Tick :: consumed). split; [simpl; f_equal; exact H1 | exact H2]. }
    destruct remaining as [|[|k]]; try apply Hstep;
      (destruct (_SocketProtocol.on_timeout self) as [[e s]|] eqn:Ht;
       [|apply Hstep]);
      exists [Tick]; (split; [reflexivity|]); simpl;
      unfold _SocketProtocol.on_timeout in Ht;
      destruct (_SocketProtocol._error self) as [x|]; try discriminate;
      destruct (exc_bool x); try discriminate;
      injection Ht as _ <-; reflexivity.
  - destruct (IH remaining (_SocketProtocol.deliver c self) now)
      as [consumed [H1 H2]].
    exists (Call c :: consumed). split; [simpl; f_equal; exact H1 | exact H2].
Qed.

(** X1. Whatever a [recvfrom] call does, the queue afterwards is what the
    callbacks made during the call left in it, less the element the call
    returned, taken from the front: the call itself enqueues nothing. *)
Theorem recvfrom_only_dequeues (self : _SocketProtocol.t) (now : nat)
  (tr : list event) :
  exists consumed,
    tr = consumed ++ _SocketProtocol.rest (_SocketProtocol.recvfrom self now tr)
    /\ _SocketProtocol._packets
         (_SocketProtocol.deliver_all (calls_of consumed) self)
       = match _SocketProtocol.outcome (_SocketProtocol.recvfrom self now tr)
         with
         | Return item =>
             item :: _SocketProtocol._packets
                       (_SocketProtocol.final
                          (_SocketProtocol.recvfrom self now tr))
         | _ =>
             _SocketProtocol._packets
               (_SocketProtocol.final (_SocketProtocol.recvfrom self now tr))
         end.
Proof. rewrite recvfrom_is_poll. apply poll_only_dequeues. Qed.

(** ** What a receive does to the protocol *)

Lemma calls_of_app tr1 tr2 :
  calls_of (tr1 ++ tr2) = calls_of tr1 ++ calls_of tr2.
Proof.
  induction tr1 as [|[|c] tr1 IH]; simpl; [reflexivity | exact IH |].
  now rewrite IH.
Qed.

Lemma ticks_app tr1 tr2 : ticks (tr1 ++ tr2) = ticks tr1 + ticks tr2.
Proof.
  induction tr1 as [|[|c] tr1 IH]; simpl; [reflexivity | | exact IH].
  now rewrite IH.
Qed.

Lemma poll_effect tr :
  forall remaining self now,
  exists consumed,
    tr = consumed ++ _SocketProtocol.rest (poll remaining self now tr)
    /\ _SocketProtocol.clock (poll remaining self now tr)
       = now + ticks consumed
    /\ match _SocketProtocol.outcome (poll remaining self now tr) with
       | Return item =>
           _SocketProtocol.deliver_all (calls_of consumed) self
           = _SocketProtocol.mk
               (item :: _SocketProtocol._packets
                          (_SocketProtocol.final (poll remaining self now tr)))
               (_SocketProtocol._error
                  (_SocketProtocol.final (poll remaining self now tr)))
       | Raise e =>
           exists x, e = Propagated x /\ exc_bool x = true
             /\ _SocketProtocol.deliver_all (calls_of consumed) self
                = _SocketProtocol.mk [] (Some x)
             /\ _SocketProtocol.final (poll remaining self now tr)
                = _SocketProtocol.mk [] None
       | Blocked =>
           _SocketProtocol.final (poll remaining self now tr)
           = _SocketProtocol.deliver_all (calls_of consumed) self
           /\ _SocketProtocol._packets
                (_SocketProtocol.final (poll remaining self now tr)) = []
           /\ _SocketProtocol.rest (poll remaining self now tr) = []
       end.
Proof.
  induction tr as [|[|c] tr IH]; intros remaining self now; cbn [poll];
    destruct self as [q err]; destruct q as [|item q];
    cbn [Queue.get_nowait _SocketProtocol._packets _SocketProtocol._error];
    try (exists []; simpl; rewrite Nat.add_0_r; repeat split; reflexivity).
  - assert (Hstep : forall r,
      let p := poll r (_SocketProtocol.mk [] err) (S now) tr in
      exists consumed,
        Tick :: tr = consumed ++ _SocketProtocol.rest p
        /\ _SocketProtocol.clock p = now + ticks consumed
        /\ match _SocketProtocol.outcome p with
           | Return item =>
               _SocketProtocol.deliver_all (calls_of consumed)
                 (_SocketProtocol.mk [] err)
               = _SocketProtocol.mk
                   (item :: _SocketProtocol._packets (_SocketProtocol.final p))
                   (_SocketProtocol._error (_SocketProtocol.final p))
           | Raise e =>
               exists x, e = Propagated x /\ exc_bool x = true
                 /\ _SocketProtocol.deliver_all (calls_of consumed)
                      (_SocketProtocol.mk [] err)
                    = _SocketProtocol.mk [] (Some x)
                 /\ _SocketProtocol.final p = _SocketProtocol.mk [] None
           | Blocked =>
               _SocketProtocol.final p
               = _SocketProtocol.deliver_all (calls_of consumed)
                   (_SocketProtocol.mk [] err)
               /\ _SocketProtocol._packets (_SocketProtocol.final p) = []
               /\ _SocketProtocol.rest p = []
           end).
    { intros r p. subst p.
      destruct (IH r (_SocketProtocol.mk [] err) (S now))
        as [consumed [H1 [H2 H3]]].
      exists (Tick :: consumed).
      split; [simpl; f_equal; exact H1|].
      split; [rewrite H2; simpl; lia | exact H3]. }
    unfold _SocketProtocol.on_timeout.
    cbn [_SocketProtocol._error _SocketProtocol._packets].
    destruct remaining as [|[|k]]; try apply Hstep;
      (destruct err as [x|]; [|apply Hstep];
       destruct (exc_bool x) eqn:Hb; [|apply Hstep];
       exists [Tick]; simpl;
       split; [reflexivity|]; split; [lia|];
       exists x; repeat split; assumption).
  - destruct (IH remaining
                (_SocketProtocol.deliver c (_SocketProtocol.mk [] err)) now)
      as [consumed [H1 [H2 H3]]].
    exists (Call c :: consumed).
    split; [simpl; f_equal; exact H1|]. split; [exact H2 | exact H3].
Qed.

(** X2. What one [recvfrom] call does to the protocol, by how it ends.  Over
    the events it consumed, which take as long as their ticks: a call that
    returns found its element at the front of the queue the callbacks had
    built and removed just that; a call that raises found the queue empty and
    a true-testing error in the slot, and cleared the slot; a call still
    suspended has only let the callbacks run, has an empty queue, and has
    seen every event. *)
Theorem recvfrom_effect (self : _SocketProtocol.t) (now : nat)
  (tr : list event) :
  exists consumed,
    tr = consumed ++ _SocketProtocol.rest (_SocketProtocol.recvfrom self now tr)
    /\ _SocketProtocol.clock (_SocketProtocol.recvfrom self now tr)
       = now + ticks consumed
    /\ match _SocketProtocol.outcome (_SocketProtocol.recvfrom self now tr)
       with
       | Return item =>
           _SocketProtocol.deliver_all (calls_of consumed) self
           = _SocketProtocol.mk
               (item :: _SocketProtocol._packets
                          (_SocketProtocol.final
                             (_SocketProtocol.recvfrom self now tr)))
               (_SocketProtocol._error
                  (_SocketProtocol.final
                     (_SocketProtocol.recvfrom self now tr)))
       | Raise e =>
           exists x, e = Propagated x /\ exc_bool x = true
             /\ _SocketProtocol.deliver_all (calls_of consumed) self
                = _SocketProtocol.mk [] (Some x)
             /\ _SocketProtocol.final (_SocketProtocol.recvfrom self now tr)
                = _SocketProtocol.mk [] None
       | Blocked =>
           _SocketProtocol.final (_SocketProtocol.recvfrom self now tr)
           = _SocketProtocol.deliver_all (calls_of consumed) self
           /\ _SocketProtocol._packets
                (_SocketProtocol.final (_SocketProtocol.recvfrom self now tr))
              = []
           /\ _SocketProtocol.rest (_SocketProtocol.recvfrom self now tr) = []
       end.
Proof. rewrite recvfrom_is_poll. apply poll_effect. Qed.

(** ** First in, first out, over any number of receives *)

Lemma deliver_packets c self :
  _SocketProtocol._packets (_SocketProtocol.deliver c self)
  = _SocketProtocol._packets self ++ enqueued [c].
Proof.
  destruct c; simpl; unfold Queue.put_nowait;
    try rewrite app_nil_r; reflexivity.
Qed.

(** A queue grows by what the callbacks enqueue, whatever it held. *)
Lemma deliver_all_packets cs :
  forall self,
  _SocketProtocol._packets (_SocketProtocol.deliver_all cs self)
  = _SocketProtocol._packets self ++ enqueued cs.
Proof.
  induction cs as [|c cs IH]; intros self.
  - simpl. rewrite app_nil_r. reflexivity.
  - unfold enqueued. rewrite !deliver_all_cons, !IH, !deliver_packets.
    simpl. rewrite app_assoc. reflexivity.
Qed.

Lemma enqueued_app cs1 cs2 : enqueued (cs1 ++ cs2) = enqueued cs1 ++ enqueued cs2.
Proof.
  unfold enqueued at 1. rewrite deliver_all_app, deliver_all_packets.
  reflexivity.
Qed.

(** One [Socket.recvfrom]: the queue before it, then what the callbacks
    enqueued meanwhile, is what it handed over, then the queue after it. *)
Lemma socket_recvfrom_queue self now tr :
  exists consumed,
    tr = consumed ++ _SocketProtocol.rest (Socket.recvfrom self now tr)
    /\ _SocketProtocol._packets (Socket._protocol self)
       ++ enqueued (calls_of consumed)
       = handed [(_SocketProtocol.outcome (Socket.recvfrom self now tr),
                  _SocketProtocol.clock (Socket.recvfrom self now tr))]
         ++ _SocketProtocol._packets
              (Socket._protocol
                 (_SocketProtocol.final (Socket.recvfrom self now tr)))
    /\ Socket._transport (_SocketProtocol.final (Socket.recvfrom self now tr))
       = Socket._transport self.
Proof.
  unfold Socket.recvfrom.
  cbn [_SocketProtocol.outcome _SocketProtocol.clock _SocketProtocol.rest
       _SocketProtocol.final Socket._protocol Socket._transport].
  rewrite recvfrom_is_poll.
  destruct (poll_effect tr poll_ticks (Socket._protocol self) now)
    as [consumed [H1 [_ H3]]].
  exists consumed. split; [exact H1|]. split; [|reflexivity].
  rewrite <- deliver_all_packets.
  destruct (_SocketProtocol.outcome
              (poll poll_ticks (Socket._protocol self) now tr))
    as [[p|]|e|].
  - rewrite H3. reflexivity.
  - rewrite H3. reflexivity.
  - destruct H3 as [x [-> [_ [H3 H4]]]]. rewrite H3, H4. reflexivity.
  - destruct H3 as [H3 [H4 _]]. rewrite <- H3, H4. reflexivity.
Qed.

(** X3. First in, first out, whatever the interleaving.  Over any number of
    successive [Socket.recvfrom] calls and any events, the queue at the start
    followed by everything the callbacks enqueued during the calls is exactly
    what the calls handed over, in that order, followed by what is still
    queued: nothing is lost, duplicated or reordered, and the transport is
    not touched. *)
Theorem recvfrom_n_first_in_first_out
  (n : nat) (self self' : Socket.t) (now : nat) (tr tr' : list event)
  (os : list (result packet * nat)) :
  Socket.recvfrom_n n self now tr = (os, self', tr') ->
  exists consumed,
    tr = consumed ++ tr'
    /\ _SocketProtocol._packets (Socket._protocol self)
       ++ enqueued (calls_of consumed)
       = handed os ++ _SocketProtocol._packets (Socket._protocol self')
    /\ Socket._transport self' = Socket._transport self.
Proof.
  revert self self' now tr tr' os.
  induction n as [|n IH]; intros self self' now tr tr' os Hrun.
  - injection Hrun as <- <- <-. exists []. simpl.
    rewrite app_nil_r. repeat split.
  - cbn [Socket.recvfrom_n] in Hrun.
    destruct (socket_recvfrom_queue self now tr) as [c1 [H1 [H2 H3]]].
    set (r := Socket.recvfrom self now tr) in *.
    assert (Hgo : forall o,
      _SocketProtocol.outcome r = o ->
      (let '(os0, self0, tr0) :=
         Socket.recvfrom_n n (_SocketProtocol.final r)
           (_SocketProtocol.clock r) (_SocketProtocol.rest r) in
       ((o, _SocketProtocol.clock r) :: os0, self0, tr0)) = (os, self', tr') ->
      exists consumed,
        tr = consumed ++ tr'
        /\ _SocketProtocol._packets (Socket._protocol self)
           ++ enqueued (calls_of consumed)
           = handed os ++ _SocketProtocol._packets (Socket._protocol self')
        /\ Socket._transport self' = Socket._transport self).
    { intros o Ho Hrest.
      destruct (Socket.recvfrom_n n (_SocketProtocol.final r)
                  (_SocketProtocol.clock r) (_SocketProtocol.rest r))
        as [[os0 self0] tr0] eqn:E.
      injection Hrest as <- <- <-.
      destruct (IH _ _ _ _ _ _ E) as [c2 [G1 [G2 G3]]].
      exists (c1 ++ c2).
      split; [rewrite <- app_assoc, <- G1; exact H1|].
      split; [|rewrite G3; exact H3].
      rewrite calls_of_app, enqueued_app, app_assoc, H2, Ho, <- app_assoc, G2.
      unfold handed. simpl. rewrite app_nil_r, app_assoc. reflexivity. }
    destruct (_SocketProtocol.outcome r) as [p|e|] eqn:Ho.
    + apply (Hgo (Return p)); [reflexivity | exact Hrun].
    + apply (Hgo (Raise e)); [reflexivity | exact Hrun].
    + injection Hrun as <- <- <-. exists c1.
      split; [exact H1|]. split; [|exact H3].
      rewrite H2. reflexivity.
Qed.

Lemma recvfrom_n_first_in_first_out_witness :
  exists consumed,
    [Call (DatagramReceived ping (localhost 9998)); Tick;
     Call (ConnectionLost None); Tick] = consumed ++ [Tick]
    /\ _SocketProtocol._packets
         (Socket._protocol
            (after [DatagramReceived [] (localhost 9997)]
               (fresh plain_transport)))
       ++ enqueued (calls_of consumed)
       = handed [(Return ([], localhost 9997), 0);
                 (Return (ping, localhost 9998), 0);
                 (Raise ClosedError, 1)]
         ++ _SocketProtocol._packets (Socket._protocol (fresh plain_transport))
    /\ Socket._transport (fresh plain_transport)
       = Socket._transport
           (after [DatagramReceived [] (localhost 9997)]
              (fresh plain_transport)).
Proof.
  exact (recvfrom_n_first_in_first_out 3
           (after [DatagramReceived [] (localhost 9997)] (fresh plain_transport))
           (fresh plain_transport) 0
           [Call (DatagramReceived ping (localhost 9998)); Tick;
            Call (ConnectionLost None); Tick] [Tick]
           [(Return ([], localhost 9997), 0);
            (Return (ping, localhost 9998), 0);
            (Raise ClosedError, 1)] eq_refl).
Defined.

(** ** Queued elements and a pending error *)

(** Calls that find an element queued hand it over at once; the calls after
    them start from the emptied queue. *)
Lemma recvfrom_n_drains_then q :
  forall m tp err now tr,
  Socket.recvfrom_n (List.length q + m)
    (Socket.mk tp (_SocketProtocol.mk q err)) now tr
  = (let '(os, self', tr') :=
       Socket.recvfrom_n m (Socket.mk tp (_SocketProtocol.mk [] err)) now tr in
     (map (fun item => (handed_over item, now)) q ++ os, self', tr')).
Proof.
  induction q as [|item q IH]; intros m tp err now tr.
  - simpl. destruct (Socket.recvfrom_n m _ now tr) as [[os s] t]. reflexivity.
  - cbn [List.length Nat.add Socket.recvfrom_n].
    rewrite socket_recvfrom_ready.
    cbn [_SocketProtocol.outcome _SocketProtocol.final _SocketProtocol.clock
         _SocketProtocol.rest].
    rewrite IH.
    destruct (Socket.recvfrom_n m _ now tr) as [[os s] t].
    destruct item; reflexivity.
Qed.

Lemma socket_recvfrom_raises_at_timeout tp e pre tr now :
  exc_bool e = true ->
  quiet pre = true ->
  S (ticks pre) = poll_ticks ->
  Socket.recvfrom (Socket.mk tp (_SocketProtocol.mk [] (Some e))) now
    (pre ++ Tick :: tr)
  = _SocketProtocol.mk_run (Raise (Propagated e))
      (Socket.mk tp (_SocketProtocol.mk [] None)) (now + poll_ticks) tr.
Proof.
  intros Hb Hquiet Hticks. unfold Socket.recvfrom.
  cbn [Socket._protocol Socket._transport].
  rewrite recvfrom_is_poll.
  rewrite (poll_raises_at_timeout pre poll_ticks _ now e tr); auto.
Qed.

(** X4. A reported error never overtakes what is queued, and then costs a
    whole poll interval.  With elements queued and a true-testing error in the
    slot, as many calls as there are elements hand them over at once, in
    order, without touching the slot; the call after them raises the error,
    and only when a full poll interval in which the loop reports nothing has
    passed. *)
Theorem queued_elements_precede_pending_error
  (q : list (option packet)) (tp : Transport) (e : PyExc)
  (pre tr : list event) (now : nat) :
  exc_bool e = true ->
  quiet pre = true ->
  S (ticks pre) = poll_ticks ->
  Socket.recvfrom_n (S (List.length q))
    (Socket.mk tp (_SocketProtocol.mk q (Some e))) now (pre ++ Tick :: tr)
  = (map (fun item => (handed_over item, now)) q
     ++ [(Raise (Propagated e), now + poll_ticks)],
     Socket.mk tp (_SocketProtocol.mk [] None), tr).
Proof.
  intros Hb Hquiet Hticks.
  rewrite <- Nat.add_1_r, recvfrom_n_drains_then.
  cbn [Socket.recvfrom_n].
  rewrite socket_recvfrom_raises_at_timeout by assumption.
  reflexivity.
Qed.

Lemma queued_elements_precede_pending_error_witness :
  Socket.recvfrom_n 3
    (Socket.mk plain_transport
       (_SocketProtocol.mk [Some (ping, localhost 9998); None] (Some oserror)))
    0 (repeat Tick 5 ++ Tick :: [Tick])
  = ([(Return (ping, localhost 9998), 0); (Raise ClosedError, 0);
      (Raise (Propagated oserror), 6)],
     Socket.mk plain_transport (_SocketProtocol.mk [] None), [Tick]).
Proof.
  exact (queued_elements_precede_pending_error
           [Some (ping, localhost 9998); None] plain_transport oserror
           (repeat Tick 5) [Tick] 0 eq_refl eq_refl eq_refl).
Defined.

(** ** When a receive can end *)

Lemma poll_raise_clock tr :
  forall remaining self now e,
  1 <= remaining ->
  _SocketProtocol.outcome (poll remaining self now tr) = Raise e ->
  exists k,
    _SocketProtocol.clock (poll remaining self now tr)
    = now + remaining + k * poll_ticks.
Proof.
  induction tr as [|[|c] tr IH]; intros remaining self now e Hr;
    cbn [poll];
    destruct (Queue.get_nowait (_SocketProtocol._packets self))
      as [[item q]|]; simpl; try discriminate.
  - destruct remaining as [|[|k]]; [lia| |].
    + destruct (_SocketProtocol.on_timeout self) as [[x s]|].
      * intros _. exists 0. cbn [_SocketProtocol.clock]. lia.
      * intros H. apply IH in H; [|unfold poll_ticks; lia].
        destruct H as [k ->]. exists (S k). unfold poll_ticks. lia.
    + intros H. apply IH in H; [|lia].
      destruct H as [k' ->]. exists k'. lia.
  - apply IH. exact Hr.
Qed.

(** X5. A reported error is raised only on a poll boundary: a
    [Socket.recvfrom] that raises one does so a whole, positive number of
    poll intervals after it was called, however the callbacks fell. *)
Theorem errors_raised_on_poll_boundaries
  (self : Socket.t) (now : nat) (tr : list event) (x : PyExc) :
  _SocketProtocol.outcome (Socket.recvfrom self now tr) = Raise (Propagated x) ->
  exists k,
    _SocketProtocol.clock (Socket.recvfrom self now tr)
    = now + S k * poll_ticks.
Proof.
  intros H. apply socket_recvfrom_propagated in H.
  unfold Socket.recvfrom. cbn [_SocketProtocol.clock].
  rewrite recvfrom_is_poll in *.
  apply poll_raise_clock in H; [|unfold poll_ticks; lia].
  destruct H as [k ->]. exists k. unfold poll_ticks. lia.
Qed.

Lemma errors_raised_on_poll_boundaries_witness :
  exists k,
    _SocketProtocol.clock
      (Socket.recvfrom (fresh plain_transport) 0
         (repeat Tick 8 ++ Call (ErrorReceived oserror) :: repeat Tick 5))
    = 0 + S k * poll_ticks.
Proof.
  exact (errors_raised_on_poll_boundaries (fresh plain_transport) 0
           (repeat Tick 8 ++ Call (ErrorReceived oserror) :: repeat Tick 5)
           oserror eq_refl).
Defined.

(** A suspended consumer and the callback that enqueues something. *)
Lemma socket_recvfrom_arrival self now pre tr :
  _SocketProtocol._packets (Socket._protocol self) = [] ->
  _SocketProtocol.on_timeout (Socket._protocol self) = None ->
  quiet pre = true ->
  (forall data addr,
      Socket.recvfrom self now (pre ++ Call (DatagramReceived data addr) :: tr)
      = _SocketProtocol.mk_run (Return (data, addr)) self (now + ticks pre) tr)
  /\ (forall exc,
        Socket.recvfrom self now (pre ++ Call (ConnectionLost exc) :: tr)
        = _SocketProtocol.mk_run (Raise ClosedError) self (now + ticks pre) tr).
Proof.
  intros Hq Ht Hquiet.
  destruct (poll_quiet_prefix pre poll_ticks (Socket._protocol self) now
              Hq Ht Hquiet) as [r' [_ Heq]]; [unfold poll_ticks; lia|].
  destruct self as [tp [q err]]. simpl in Hq. subst q.
  split; intros; unfold Socket.recvfrom;
    cbn [Socket._protocol Socket._transport] in *;
    rewrite recvfrom_is_poll, Heq;
    cbn [poll _SocketProtocol._packets Queue.get_nowait];
    erewrite poll_ready by reflexivity; reflexivity.
Qed.

(** X6. Polling delays errors only.  A consumer suspended with nothing
    queued and nothing deliverable in the slot is woken by a datagram the
    moment [datagram_received] runs, and by closure the moment
    [connection_lost] runs, wherever in a poll interval that falls; the
    socket is left as it was. *)
Theorem arrival_wakes_consumer_at_once
  (self : Socket.t) (now : nat) (pre tr : list event) :
  _SocketProtocol._packets (Socket._protocol self) = [] ->
  _SocketProtocol.on_timeout (Socket._protocol self) = None ->
  quiet pre = true ->
  (forall data addr,
      Socket.recvfrom self now (pre ++ Call (DatagramReceived data addr) :: tr)
      = _SocketProtocol.mk_run (Return (data, addr)) self (now + ticks pre) tr)
  /\ (forall exc,
        Socket.recvfrom self now (pre ++ Call (ConnectionLost exc) :: tr)
        = _SocketProtocol.mk_run (Raise ClosedError) self (now + ticks pre) tr).
Proof. apply socket_recvfrom_arrival. Qed.

Lemma arrival_wakes_consumer_at_once_witness :
  (forall data addr,
      Socket.recvfrom (fresh plain_transport) 0
        (repeat Tick 9 ++ Call (DatagramReceived data addr) :: [Tick])
      = _SocketProtocol.mk_run (Return (data, addr)) (fresh plain_transport)
          (0 + ticks (repeat Tick 9)) [Tick])
  /\ (forall exc,
        Socket.recvfrom (fresh plain_transport) 0
          (repeat Tick 9 ++ Call (ConnectionLost exc) :: [Tick])
        = _SocketProtocol.mk_run (Raise ClosedError) (fresh plain_transport)
            (0 + ticks (repeat Tick 9)) [Tick]).
Proof.
  exact (arrival_wakes_consumer_at_once (fresh plain_transport) 0
           (repeat Tick 9) [Tick] eq_refl eq_refl eq_refl).
Defined.

(** ** Calls on the transport *)

(** X7. The socket keeps no state of its own about the transport: every
    [sendto] and [close] of a caller reaches the transport, in program order
    and with its arguments, whether or not earlier calls raised and also
    after a [close]; none of them suspends; and if the transport never calls
    back on the protocol, none of them changes what there is to receive. *)
Theorem transport_calls_in_program_order
  (cs : list transport_call) (self : Socket.t) :
  calls (Socket._transport (snd (perform cs self)))
  = calls (Socket._transport self) ++ cs
  /\ List.length (fst (perform cs self)) = List.length cs
  /\ Forall (fun o => o <> Blocked) (fst (perform cs self))
  /\ ((forall history c,
         callbacks (behaviour (Socket._transport self) history c) = []) ->
      Socket._protocol (snd (perform cs self)) = Socket._protocol self).
Proof.
  revert self. induction cs as [|c cs IH]; intros self.
  - simpl. rewrite app_nil_r. repeat split. constructor.
  - cbn [perform].
    assert (Hstep :
      (match c with
       | SendTo data addr => Socket.sendto self data addr
       | Close => Socket.close self
       end) = Socket.invoke c self) by (destruct c; reflexivity).
    rewrite Hstep. unfold Socket.invoke at 1 2 3 4.
    match goal with
    | |- context [perform cs ?s] =>
        destruct (IH s) as [H1 [H2 [H3 H4]]];
        destruct (perform cs s) as [os self''] eqn:E
    end.
    cbn [fst snd Socket._transport Socket._protocol calls behaviour] in *.
    split; [rewrite H1, <- app_assoc; reflexivity|].
    split; [simpl; f_equal; exact H2|].
    split.
    + constructor; [|exact H3].
      destruct (raises _); discriminate.
    + intros Hquiet. rewrite (H4 Hquiet), Hquiet. reflexivity.
Qed.

(** X8. [async with] does not swallow anything: what the block returned or
    raised comes out of the statement unchanged, [__aexit__] returning
    [None], unless the closing call itself raises, in which case that
    exception comes out instead. *)
Theorem async_with_passes_outcome_on
  (A : Type) (mgr : Socket.t) (block : Socket.t -> result A * Socket.t) :
  fst (Socket.async_with mgr block)
  = match fst (block mgr) with
    | Blocked => Blocked
    | o =>
        match raises (behaviour (Socket._transport (snd (block mgr)))
                        (calls (Socket._transport (snd (block mgr)))) Close)
        with
        | Some exc => Raise (Propagated exc)
        | None => o
        end
    end.
Proof.
  unfold Socket.async_with, Socket.__aenter__, Socket.__aexit__, Socket.close,
    Socket.invoke.
  destruct (block mgr) as [[v|e|] self1]; cbn [fst snd];
    try reflexivity; destruct (raises _); reflexivity.
Qed.

(** ** From creation to the first datagram *)


(** ** A whole transport life, whatever the timing *)

Lemma not_error_calls_of tr :
  forallb (fun c => not_error (Call c)) (calls_of tr) = true ->
  forallb not_error tr = true.
Proof.
  induction tr as [|[|c] tr IH]; simpl; [reflexivity | exact IH |].
  intros H. apply andb_prop in H as [H1 H2]. rewrite H1, (IH H2). reflexivity.
Qed.

(** While no error is reported and the slot holds nothing deliverable, a
    call returns the next element of the queue as the callbacks extend it,
    however the ticks fall. *)
Lemma poll_returns_next tr :
  forall remaining self now item queue,
  _SocketProtocol.on_timeout self = None ->
  forallb not_error tr = true ->
  _SocketProtocol._packets self ++ enqueued (calls_of tr) = item :: queue ->
  _SocketProtocol.outcome (poll remaining self now tr) = Return item
  /\ _SocketProtocol.on_timeout
       (_SocketProtocol.final (poll remaining self now tr)) = None
  /\ forallb not_error (_SocketProtocol.rest (poll remaining self now tr))
     = true
  /\ _SocketProtocol._packets
       (_SocketProtocol.final (poll remaining self now tr))
     ++ enqueued (calls_of (_SocketProtocol.rest (poll remaining self now tr)))
     = queue.
Proof.
  induction tr as [|[|c] tr IH]; intros remaining self now item queue Ht Hne Hq;
    cbn [poll];
    destruct (_SocketProtocol._packets self) as [|x q] eqn:E;
    cbn [Queue.get_nowait];
    try (simpl in Hq; injection Hq as -> <-;
         cbn [_SocketProtocol.outcome _SocketProtocol.final
              _SocketProtocol.rest _SocketProtocol._packets];
         repeat split; try assumption;
         apply (on_timeout_same_slot self); [reflexivity | assumption]).
  - discriminate.
  - simpl in Hne. rewrite Ht.
    destruct remaining as [|[|k]]; apply IH; try assumption;
      rewrite E; exact Hq.
  - simpl in Hne. apply andb_prop in Hne as [Hc Hne].
    apply IH; [|assumption|].
    + apply (on_timeout_same_slot self); [|assumption].
      apply not_error_deliver. exact Hc.
    + rewrite deliver_packets, E, <- app_assoc, <- enqueued_app. exact Hq.
Qed.

Lemma recvfrom_n_returns_next items :
  forall self now tr queue,
  _SocketProtocol.on_timeout (Socket._protocol self) = None ->
  forallb not_error tr = true ->
  _SocketProtocol._packets (Socket._protocol self) ++ enqueued (calls_of tr)
  = items ++ queue ->
  map fst (fst (fst (Socket.recvfrom_n (List.length items) self now tr)))
  = map handed_over items.
Proof.
  induction items as [|item items IH]; intros self now tr queue Ht Hne Hq;
    [reflexivity|].
  cbn [List.length Socket.recvfrom_n].
  destruct (poll_returns_next tr poll_ticks (Socket._protocol self) now item
              (items ++ queue) Ht Hne Hq) as [H1 [H2 [H3 H4]]].
  unfold Socket.recvfrom at 1.
  cbn [_SocketProtocol.outcome]. rewrite recvfrom_is_poll, H1.
  assert (Hrest :
    map fst (fst (fst
      (Socket.recvfrom_n (List.length items)
         (_SocketProtocol.final (Socket.recvfrom self now tr))
         (_SocketProtocol.clock (Socket.recvfrom self now tr))
         (_SocketProtocol.rest (Socket.recvfrom self now tr)))))
    = map handed_over items).
  { apply (IH _ _ _ queue); unfold Socket.recvfrom;
      cbn [_SocketProtocol.final _SocketProtocol.rest Socket._protocol];
      rewrite recvfrom_is_poll; assumption. }
  destruct item as [p|];
    destruct (Socket.recvfrom_n (List.length items) _ _ _) as [[os s] t];
    simpl in *; rewrite Hrest; reflexivity.
Qed.

(** X10. Over the whole life of a transport on which no error is reported,
    however the callbacks are spread over time, a consumer that keeps calling
    [recvfrom] on the new socket gets every datagram, in the order of the
    callbacks and with its own sender, and after them [ClosedError]. *)
Theorem transport_life_delivered_in_order
  (l : list packet) (exc : option PyExc) (tp : Transport) (now : nat)
  (tr : list event) :
  calls_of tr = ConnectionMade :: datagrams l ++ [ConnectionLost exc] ->
  map fst (fst (fst (Socket.recvfrom_n (S (List.length l)) (fresh tp) now tr)))
  = map Return l ++ [Raise ClosedError].
Proof.
  intros Hcalls.
  assert (Hne : forallb not_error tr = true).
  { apply not_error_calls_of. rewrite Hcalls. simpl.
    rewrite forallb_app. simpl. rewrite andb_true_r.
    unfold datagrams. rewrite forallb_forall. intros c Hin.
    apply in_map_iff in Hin as [p [<- _]]. reflexivity. }
  pose proof (recvfrom_n_returns_next (map Some l ++ [None]) (fresh tp) now tr
                [] eq_refl Hne) as H.
  rewrite length_app, length_map, Nat.add_1_r in H.
  rewrite H.
  - rewrite map_app, map_map. reflexivity.
  - rewrite Hcalls, app_nil_r. cbn [fresh Socket.__init__ Socket._protocol
      _SocketProtocol.__init__ _SocketProtocol._packets Queue.empty app].
    change (ConnectionMade :: datagrams l ++ [ConnectionLost exc])
      with ([ConnectionMade] ++ datagrams l ++ [ConnectionLost exc]).
    rewrite !enqueued_app. unfold enqueued at 2.
    rewrite deliver_all_datagrams. reflexivity.
Qed.

Lemma transport_life_delivered_in_order_witness :
  map fst (fst (fst
    (Socket.recvfrom_n 3 (fresh plain_transport) 0
       [Call ConnectionMade; Tick; Tick; Tick; Tick; Tick; Tick; Tick;
        Call (DatagramReceived ping (localhost 9998)); Tick;
        Call (DatagramReceived [] (localhost 9997));
        Call (ConnectionLost None); Tick])))
  = map Return [(ping, localhost 9998); ([], localhost 9997)]
    ++ [Raise ClosedError].
Proof.
  exact (transport_life_delivered_in_order
           [(ping, localhost 9998); ([], localhost 9997)] None plain_transport 0
           [Call ConnectionMade; Tick; Tick; Tick; Tick; Tick; Tick; Tick;
            Call (DatagramReceived ping (localhost 9998)); Tick;
            Call (DatagramReceived [] (localhost 9997));
            Call (ConnectionLost None); Tick] eq_refl).
Defined.

(** ** What is ever enqueued, callback by callback *)





